(** * Machine-Spirit core: the configuration store and the path registry

    A shallow embedding of [src/core/Config.cpp] and [src/core/Paths.cpp].

    Both translation units keep their state in static members
    ([Config::s_values], [Paths::s_root]) and talk to the operating system
    (the environment, the file system).  The embedding threads one [Process]
    record through every call: it holds the two static members, the value of
    the home-directory environment variable and the part of the disk the
    code can observe.  Calls are computations in a state monad whose result
    is either [Done] or [Undefined]; the latter stands for the one place
    where the C++ text has no defined meaning (building a [std::string]
    from the null pointer that [getenv] returns for an unset variable). *)

From Stdlib Require Import Ascii.
From stdpp Require Import gmap strings list fin_maps.

(** ** std::string *)

Module Str.

Definition newline : ascii := "010"%char.
Definition equals : ascii := "="%char.

(** The characters of a string, in order. *)
Fixpoint chars (s : string) : list ascii :=
  match s with
  | EmptyString => []
  | String c s' => c :: chars s'
  end.

(** [s.find(c)]: the index of the first occurrence of [c]; [None] is
    [std::string::npos]. *)
Fixpoint find (c : ascii) (s : string) : option nat :=
  match s with
  | EmptyString => None
  | String d s' => if decide (d = c) then Some 0 else S <$> find c s'
  end.

(** [s.substr(pos)]: the suffix from index [pos] on.  The library call
    throws [std::out_of_range] when [pos] exceeds the size; the only call
    site passes [find + 1], which never does (see [find_lt]), so that
    case is left as the empty string here. *)
Fixpoint substr_from (pos : nat) (s : string) : string :=
  match pos, s with
  | 0, _ => s
  | S p, String _ s' => substr_from p s'
  | S _, EmptyString => EmptyString
  end.

(** [s.substr(pos, n)]: at most [n] characters from index [pos] on. *)
Fixpoint prefix (n : nat) (s : string) : string :=
  match n, s with
  | S m, String c s' => String c (prefix m s')
  | _, _ => EmptyString
  end.

Definition substr (pos n : nat) (s : string) : string :=
  prefix n (substr_from pos s).

(** [std::getline(in, line)] on the unread remainder [s] of a stream:
    [None] when nothing is left (the extraction fails and the loop ends),
    otherwise the characters up to the first newline, which is consumed,
    and what follows it. *)
Fixpoint until_newline (s : string) : string * string :=
  match s with
  | EmptyString => (EmptyString, EmptyString)
  | String c s' =>
      if decide (c = newline) then (EmptyString, s')
      else let '(l, r) := until_newline s' in (String c l, r)
  end.

Definition getline (s : string) : option (string * string) :=
  match s with
  | EmptyString => None
  | _ => Some (until_newline s)
  end.

(** All the lines that repeated [getline] calls deliver, first to last.
    Written by structural recursion on the text; [getlines_getline] below
    shows that it is the loop [while (getline ...)]. *)
Fixpoint getlines (s : string) : list string :=
  match s with
  | EmptyString => []
  | String c s' =>
      if decide (c = newline) then EmptyString :: getlines s'
      else match getlines s' with
           | [] => [String c EmptyString]
           | l :: ls => String c l :: ls
           end
  end.

End Str.

(** ** The process: static members, environment, disk *)

(** A regular file: whether it can be opened for reading and for writing,
    and its text. *)
Record file : Type := File {
  readable : bool;
  writable : bool;
  contents : string
}.

(** [s_values] is [Config::s_values] and [s_root] is [Paths::s_root].
    [env_home] is what [getenv] returns for the home-directory variable
    ([HOME], or [USERPROFILE] under [_WIN32]); [None] is the null pointer of
    an unset variable.  [files] maps a path to the regular file stored
    there and [dirs] is the set of directories that exist.  Directory
    creation is taken to succeed, and a path names a regular file or
    nothing. *)
Record Process : Type := mkProcess {
  s_values : gmap string string;
  s_root : string;
  env_home : option string;
  files : gmap string file;
  dirs : gset string
}.

Definition with_values (m : gmap string string) (st : Process) : Process :=
  mkProcess m (s_root st) (env_home st) (files st) (dirs st).

Definition with_root (r : string) (st : Process) : Process :=
  mkProcess (s_values st) r (env_home st) (files st) (dirs st).

Definition with_files (fs : gmap string file) (st : Process) : Process :=
  mkProcess (s_values st) (s_root st) (env_home st) fs (dirs st).

Definition with_dirs (ds : gset string) (st : Process) : Process :=
  mkProcess (s_values st) (s_root st) (env_home st) (files st) ds.

(** The state at program start: the static initialisers of both
    translation units ([s_values] is default-constructed, [s_root] is the
    empty string),
    in an arbitrary environment and on an arbitrary disk. *)
Definition initial (home : option string) (fs : gmap string file)
    (ds : gset string) : Process :=
  mkProcess ∅ EmptyString home fs ds.

(** ** Computations *)

Inductive outcome (A : Type) : Type :=
| Done (a : A)
| Undefined.
Arguments Done {A} a.
Arguments Undefined {A}.

Definition M (A : Type) : Type := Process → outcome (A * Process).

#[global] Instance M_ret : MRet M := λ A a st, Done (a, st).

#[global] Instance M_bind : MBind M := λ A B f m st,
  match m st with
  | Done (a, st') => f a st'
  | Undefined => Undefined
  end.

Definition gets {A : Type} (f : Process → A) : M A := λ st, Done (f st, st).

Definition modify (f : Process → Process) : M unit := λ st, Done ((), f st).

Definition undefined_behaviour {A : Type} : M A := λ _, Undefined.

(** ** The operating system and the C++ library, as far as the code uses them *)

Module Sys.

(** [getenv("HOME")] (or [getenv("USERPROFILE")]). *)
Definition getenv_home : M (option string) := gets env_home.

(** [std::string(const char* )]: undefined on the null pointer. *)
Definition std_string (p : option string) : M string :=
  match p with
  | Some s => mret s
  | None => undefined_behaviour
  end.

(** [std::filesystem::exists(p)]. *)
Definition exists_ (p : string) : M bool :=
  gets (λ st, bool_decide (is_Some (files st !! p))).

(** [std::filesystem::path(p).parent_path()] for a path whose last
    component follows a single separator: everything before the last
    ['/']. *)
Fixpoint parent_path (p : string) : string :=
  match p with
  | EmptyString => EmptyString
  | String c p' =>
      match Str.find "/"%char p' with
      | None => EmptyString
      | Some _ => String c (parent_path p')
      end
  end.

(** [std::filesystem::create_directories(p)]. *)
Definition create_directories (p : string) : M unit :=
  modify (λ st, with_dirs ({[ p ]} ∪ dirs st) st).

(** [std::ifstream in(p)] followed by [in.is_open()]: the text of the file
    when it could be opened, [None] otherwise. *)
Definition ifstream (p : string) : M (option string) :=
  gets (λ st,
    match files st !! p with
    | Some f => if readable f then Some (contents f) else None
    | None => None
    end).

(** [std::ofstream out(p)], the text streamed into it, and its destructor:
    a missing file is created, an existing one is truncated and rewritten,
    and when it cannot be opened for writing every [<<] is a no-op. *)
Definition ofstream (p : string) (text : string) : M unit :=
  modify (λ st,
    match files st !! p with
    | None => with_files (<[p := File true true text]> (files st)) st
    | Some f =>
        if writable f
        then with_files (<[p := File (readable f) true text]> (files st)) st
        else st
    end).

End Sys.

(** ** Config.cpp *)

Module Config.

(** [Config::getConfigFilePath]. *)
Definition getConfigFilePath : M string :=
  user ← Sys.getenv_home;
  home ← Sys.std_string user;
  mret (home +:+ "/.machine_spirit/config.ini").

(** The body of the [while] loop of [Config::load] on one line: [continue]
    when [find] yields [npos], otherwise [s_values[key] = val]. *)
Definition load_line (m : gmap string string) (line : string)
    : gmap string string :=
  match Str.find Str.equals line with
  | None => m
  | Some pos =>
      let key := Str.substr 0 pos line in
      let val := Str.substr_from (pos + 1) line in
      <[key := val]> m
  end.

(** The key and the value that a line assigns, if it assigns any. *)
Definition parse_line (line : string) : option (string * string) :=
  match Str.find Str.equals line with
  | None => None
  | Some pos => Some (Str.substr 0 pos line, Str.substr_from (pos + 1) line)
  end.

(** The whole loop: one [load_line] per line that [getline] delivers. *)
Definition load_lines (text : string) (m : gmap string string)
    : gmap string string :=
  foldl load_line m (Str.getlines text).

(** One iteration of the range-for of [Config::save]:
    [out << k << "=" << v << "\n"]. *)
Definition write_entry (out : string) (e : string * string) : string :=
  out +:+ e.1 +:+ "=" +:+ e.2 +:+ String Str.newline EmptyString.

(** [s_values.count(key)]. *)
Definition count (key : string) : M nat :=
  gets (λ st, match s_values st !! key with Some _ => 1 | None => 0 end).

(** [s_values[key]] read as a value: [operator[]] value-initialises and
    inserts the element when the key is missing. *)
Definition index (key : string) : M string := λ st,
  match s_values st !! key with
  | Some v => Done (v, st)
  | None => Done (EmptyString, with_values (<[key := EmptyString]> (s_values st)) st)
  end.

(** [s_values[key] = value]. *)
Definition index_assign (key value : string) : M unit :=
  modify (λ st, with_values (<[key := value]> (s_values st)) st).

(** [Config::get]. *)
Definition get (key : string) : M string :=
  n ← count key;
  if decide (n = 0) then mret EmptyString else index key.

Section Iteration.

(** The order in which a range-for visits an [std::unordered_map] is left
    to the implementation, so it is a parameter here: any enumeration of
    the entries.  Results that depend on it assume only that it lists the
    entries of the map, each once. *)
Variable iter_order : gmap string string → list (string * string).

(** [Config::save]. *)
Definition save : M unit :=
  file ← getConfigFilePath;
  Sys.create_directories (Sys.parent_path file);;
  m ← gets s_values;
  Sys.ofstream file (foldl write_entry EmptyString (iter_order m)).

(** [Config::load]. *)
Definition load : M unit :=
  file ← getConfigFilePath;
  present ← Sys.exists_ file;
  if negb present then save
  else
    opened ← Sys.ifstream file;
    match opened with
    | None => mret ()
    | Some text => modify (λ st, with_values (load_lines text (s_values st)) st)
    end.

(** [Config::set]. *)
Definition set (key value : string) : M unit :=
  index_assign key value;;
  save.

End Iteration.

End Config.

(** ** Paths.cpp *)

Module Paths.

Definition root : M string := gets s_root.
Definition config : M string := gets (λ st, s_root st +:+ "config/").
Definition logs : M string := gets (λ st, s_root st +:+ "logs/").
Definition models : M string := gets (λ st, s_root st +:+ "models/").
Definition knowledge : M string := gets (λ st, s_root st +:+ "knowledge/").
Definition memory : M string := gets (λ st, s_root st +:+ "memory/").
Definition backups : M string := gets (λ st, s_root st +:+ "backups/").
Definition themes : M string := gets (λ st, s_root st +:+ "themes/").
Definition hive : M string := gets (λ st, s_root st +:+ "hive/").
Definition tmp : M string := gets (λ st, s_root st +:+ "tmp/").

(** [Paths::init]. *)
Definition init : M unit :=
  user ← Sys.getenv_home;
  home ← Sys.std_string user;
  modify (with_root (home +:+ "/.machine_spirit/"));;
  (config ≫= Sys.create_directories);;
  (logs ≫= Sys.create_directories);;
  (models ≫= Sys.create_directories);;
  (knowledge ≫= Sys.create_directories);;
  (memory ≫= Sys.create_directories);;
  (backups ≫= Sys.create_directories);;
  (themes ≫= Sys.create_directories);;
  (hive ≫= Sys.create_directories);;
  (tmp ≫= Sys.create_directories).

(** The nine categories, to speak about the accessors uniformly. *)
Inductive category : Type :=
| Cconfig | Clogs | Cmodels | Cknowledge | Cmemory
| Cbackups | Cthemes | Chive | Ctmp.

Definition category_name (c : category) : string :=
  match c with
  | Cconfig => "config"
  | Clogs => "logs"
  | Cmodels => "models"
  | Cknowledge => "knowledge"
  | Cmemory => "memory"
  | Cbackups => "backups"
  | Cthemes => "themes"
  | Chive => "hive"
  | Ctmp => "tmp"
  end.

Definition accessor (c : category) : M string :=
  match c with
  | Cconfig => config
  | Clogs => logs
  | Cmodels => models
  | Cknowledge => knowledge
  | Cmemory => memory
  | Cbackups => backups
  | Cthemes => themes
  | Chive => hive
  | Ctmp => tmp
  end.

End Paths.

(** ** Call sequences *)

(** The public entry points of the two classes. *)
Inductive call : Type :=
| CallLoad
| CallSave
| CallGet (key : string)
| CallSet (key value : string)
| CallGetConfigFilePath
| CallInit
| CallRoot
| CallAccessor (c : Paths.category).

Section Calls.

Variable iter_order : gmap string string → list (string * string).

Definition exec (c : call) : M unit :=
  match c with
  | CallLoad => Config.load iter_order
  | CallSave => Config.save iter_order
  | CallGet key => Config.get key;; mret ()
  | CallSet key value => Config.set iter_order key value
  | CallGetConfigFilePath => Config.getConfigFilePath;; mret ()
  | CallInit => Paths.init
  | CallRoot => Paths.root;; mret ()
  | CallAccessor c => Paths.accessor c;; mret ()
  end.

Fixpoint run (cs : list call) : M unit :=
  match cs with
  | [] => mret ()
  | c :: cs' => exec c;; run cs'
  end.

End Calls.

(** Processes for the examples.  [demo]: the home directory is set, the
    store and the disk are empty.  [stored]: two entries in the store.
    [on_disk]: one entry in the store and a configuration file of three
    lines, among them one without ['='] and one with two. *)
Definition demo : Process := initial (Some "/home/u") ∅ ∅.

Definition stored : Process :=
  mkProcess {[ "k" := "v"; "name" := "machine spirit" ]} EmptyString
    (Some "/home/u") ∅ ∅.

Definition on_disk : Process :=
  mkProcess {[ "x" := "1" ]} EmptyString (Some "/home/u")
    {[ "/home/u/.machine_spirit/config.ini"
         := File true true
              ("a=b=c" +:+ String Str.newline "novalue"
               +:+ String Str.newline "k=v" +:+ String Str.newline EmptyString) ]}
    ∅.

(** ** Vocabulary of the properties *)

(** The path of the configuration file under a given home directory. *)
Definition config_file (home : string) : string :=
  home +:+ "/.machine_spirit/config.ini".

(** A string with no ['='] and no newline. *)
Definition plain (s : string) : Prop :=
  (Str.equals ∉ Str.chars s) ∧ (Str.newline ∉ Str.chars s).

(** A mapping all of whose keys and values are [plain]. *)
Definition plain_store (m : gmap string string) : Prop :=
  map_Forall (λ k v, plain k ∧ plain v) m.

(** An admissible iteration order lists the entries of the map, each once. *)
Definition enumerates (iter_order : gmap string string → list (string * string))
    : Prop :=
  ∀ m, iter_order m ≡ₚ map_to_list m.

(** The same process with a fresh, empty store. *)
Definition fresh (st : Process) : Process := with_values ∅ st.

(** The assignments that the lines of a text make, first to last. *)
Definition text_entries (text : string) : list (string * string) :=
  omap Config.parse_line (Str.getlines text).

(** The keys that occur in the file stored at a path; none when there is no
    file. *)
Definition file_keys (path : string) (st : Process) : list string :=
  match files st !! path with
  | Some f => (text_entries (contents f)).*1
  | None => []
  end.

(** Reading and writing the file at a path goes through: there is no file
    yet, or it can be opened both ways. *)
Definition usable (path : string) (st : Process) : Prop :=
  match files st !! path with
  | Some f => readable f = true ∧ writable f = true
  | None => True
  end.

(** The line written for an entry, without its newline. *)
Definition entry_line (e : string * string) : string :=
  e.1 +:+ String Str.equals e.2.

(** The text that [save] streams out in a given process. *)
Definition written (iter_order : gmap string string → list (string * string))
    (st : Process) : string :=
  foldl Config.write_entry EmptyString (iter_order (s_values st)).

(** What the file format can carry: no key holds an ['='], and no key and
    no value holds a newline.  Values may hold ['=']. *)
Definition storable (m : gmap string string) : Prop :=
  map_Forall (λ k v, (Str.equals ∉ Str.chars k) ∧ (Str.newline ∉ Str.chars k)
                     ∧ (Str.newline ∉ Str.chars v)) m.

(** The root directory under a given home directory. *)
Definition root_of (home : string) : string := home +:+ "/.machine_spirit/".

Definition all_categories : list Paths.category :=
  [Paths.Cconfig; Paths.Clogs; Paths.Cmodels; Paths.Cknowledge; Paths.Cmemory;
   Paths.Cbackups; Paths.Cthemes; Paths.Chive; Paths.Ctmp].

(** The nine category directories under a root. *)
Definition category_dirs (r : string) : gset string :=
  list_to_set ((λ c, r +:+ Paths.category_name c +:+ "/") <$> all_categories).

(** A store whose value holds ['='] signs, on an empty disk. *)
Definition with_url : Process :=
  mkProcess {[ "url" := "http://host/?a=1&b=2" ]} EmptyString
    (Some "/home/u") ∅ ∅.

(** A configuration file that assigns [k] twice. *)
Definition assigned_twice : Process :=
  mkProcess {[ "k" := "memory" ]} EmptyString (Some "/home/u")
    {[ "/home/u/.machine_spirit/config.ini"
         := File true true
              ("k=first" +:+ String Str.newline "j= spaced "
               +:+ String Str.newline "k=last") ]}
    ∅.

(** * Properties *)

(** ** The definitions on small inputs *)

Example find_first : Str.find Str.equals "a=b=c" = Some 1.
Proof. reflexivity. Qed.

Example find_npos : Str.find Str.equals "novalue" = None.
Proof. reflexivity. Qed.

Example getlines_final_newline :
  Str.getlines ("k=v" +:+ String Str.newline "x" +:+ String Str.newline EmptyString)
  = ["k=v"; "x"].
Proof. reflexivity. Qed.

Example getlines_blank_line :
  Str.getlines (String Str.newline (String Str.newline "z")) = [EmptyString; EmptyString; "z"].
Proof. reflexivity. Qed.

Example parent_of_config_file :
  Sys.parent_path "/home/u/.machine_spirit/config.ini" = "/home/u/.machine_spirit".
Proof. reflexivity. Qed.

Example demo_set_get :
  (Config.set map_to_list "k" "v";; Config.get "k") demo
  = Done ("v",
          mkProcess {[ "k" := "v" ]} EmptyString (Some "/home/u")
            {[ "/home/u/.machine_spirit/config.ini"
                 := File true true ("k=v" +:+ String Str.newline EmptyString) ]}
            {[ "/home/u/.machine_spirit" ]}).
Proof. vm_compute. reflexivity. Qed.

(** [operator[]] alone would insert a missing key; [get] is written so as
    not to reach it in that case (see [get_run]). *)
Example index_inserts_missing_key :
  Config.index "k" demo
  = Done (EmptyString, with_values {[ "k" := EmptyString ]} demo).
Proof. vm_compute. reflexivity. Qed.

Example get_missing_key : Config.get "k" demo = Done (EmptyString, demo).
Proof. vm_compute. reflexivity. Qed.

(** An unreadable file is left alone and so is the store. *)
Example load_unreadable :
  Config.load map_to_list
    (mkProcess {[ "x" := "1" ]} EmptyString (Some "/home/u")
       {[ "/home/u/.machine_spirit/config.ini" := File false true "x=2" ]} ∅)
  = Done ((), mkProcess {[ "x" := "1" ]} EmptyString (Some "/home/u")
       {[ "/home/u/.machine_spirit/config.ini" := File false true "x=2" ]} ∅).
Proof. vm_compute. reflexivity. Qed.

(** [on_disk] after [load]: the line without ['='] is skipped, [a=b=c] is
    split at its first ['='], and the entry for [x] is kept. *)
Example load_on_disk :
  ∃ st, Config.load map_to_list on_disk = Done ((), st)
        ∧ s_values st = {[ "x" := "1"; "a" := "b=c"; "k" := "v" ]}.
Proof. eexists. split; vm_compute; reflexivity. Qed.

(** ** Strings *)

Module StrFacts.
Import Str.

Lemma append_nil (s : string) : EmptyString +:+ s = s.
Proof. reflexivity. Qed.

Lemma append_cons (c : ascii) (s t : string) :
  String c s +:+ t = String c (s +:+ t).
Proof. reflexivity. Qed.

Lemma append_empty_r (s : string) : s +:+ EmptyString = s.
Proof. induction s as [|c s IH]; [done | by rewrite append_cons, IH]. Qed.

Lemma append_assoc (a b c : string) : (a +:+ b) +:+ c = a +:+ (b +:+ c).
Proof. induction a as [|x a IH]; [done | by rewrite !append_cons, IH]. Qed.

Lemma chars_append (a b : string) : chars (a +:+ b) = chars a ++ chars b.
Proof.
  induction a as [|x a IH]; [done |].
  rewrite append_cons; simpl. by rewrite IH.
Qed.

(** [find] yields [npos] exactly on the strings without the character. *)
Lemma find_None (c : ascii) (s : string) : find c s = None ↔ c ∉ chars s.
Proof.
  induction s as [|d s IH]; simpl.
  - split; [intros _; apply not_elem_of_nil | done].
  - rewrite not_elem_of_cons. destruct (decide (d = c)) as [->|Hne].
    + split; [done | intros [[] _]; done].
    + destruct (find c s) eqn:E; simpl.
      * split; [done |]. intros [_ Hs]. by apply IH in Hs.
      * split; [| done]. intros _. split; [congruence | by apply IH].
Qed.

Lemma find_is_Some (c : ascii) (s : string) : is_Some (find c s) ↔ c ∈ chars s.
Proof.
  rewrite <- not_eq_None_Some, find_None.
  destruct (decide (c ∈ chars s)); naive_solver.
Qed.

(** The index that [find] returns is inside the string, so [pos + 1] is a
    legal argument of [substr]. *)
Lemma find_lt (c : ascii) (s : string) (p : nat) :
  find c s = Some p → p < String.length s.
Proof.
  revert p. induction s as [|d s IH]; intros p; simpl; [done |].
  destruct (decide (d = c)); [intros [= <-]; lia |].
  destruct (find c s) as [q|]; simpl; [| done].
  intros [= <-]. specialize (IH q eq_refl). lia.
Qed.

(** The first occurrence after a prefix free of the character. *)
Lemma find_append (c : ascii) (k v : string) :
  c ∉ chars k → find c (k +:+ String c v) = Some (String.length k).
Proof.
  induction k as [|d k IH]; intros Hk.
  - rewrite append_nil; simpl. by rewrite decide_True.
  - apply not_elem_of_cons in Hk as [Hd Hk].
    rewrite append_cons; simpl.
    rewrite decide_False by congruence. by rewrite IH.
Qed.

Lemma substr_prefix_append (k s : string) :
  substr 0 (String.length k) (k +:+ s) = k.
Proof.
  unfold substr; simpl.
  induction k as [|d k IH]; [by destruct s |].
  rewrite append_cons; simpl. by rewrite IH.
Qed.

Lemma substr_from_append (k s : string) (c : ascii) :
  substr_from (String.length k + 1) (k +:+ String c s) = s.
Proof.
  induction k as [|d k IH]; [done |].
  rewrite append_cons; simpl. by rewrite IH.
Qed.

(** A string splits around the position that [find] returns. *)
Lemma find_split (c : ascii) (s : string) (p : nat) :
  find c s = Some p →
  s = substr 0 p s +:+ String c (substr_from (p + 1) s)
  ∧ c ∉ chars (substr 0 p s).
Proof.
  unfold substr; simpl. revert p.
  induction s as [|d s IH]; intros p; simpl; [done |].
  destruct (decide (d = c)) as [->|Hne].
  - intros [= <-]; simpl. split; [done | apply not_elem_of_nil].
  - destruct (find c s) as [q|]; simpl; [| done].
    intros [= <-]; simpl. destruct (IH q eq_refl) as [Heq Hfree].
    split; [by rewrite append_cons, <- Heq |].
    apply not_elem_of_cons. split; [congruence | done].
Qed.

(** [getlines] is the loop over [getline]. *)
Lemma getlines_getline (s : string) :
  getlines s = match getline s with
               | None => []
               | Some (line, rest) => line :: getlines rest
               end.
Proof.
  induction s as [|c s IH]; [done |].
  simpl. destruct (decide (c = newline)); [done |].
  rewrite IH. destruct s as [|d s]; [done |]. simpl.
  destruct (decide (d = newline)); [done |].
  by destruct (until_newline s).
Qed.

(** A newline-free line followed by a newline is delivered as it is. *)
Lemma getlines_line (l rest : string) :
  newline ∉ chars l →
  getlines (l +:+ String newline rest) = l :: getlines rest.
Proof.
  induction l as [|c l IH]; intros Hl.
  - by rewrite append_nil.
  - apply not_elem_of_cons in Hl as [Hc Hl].
    rewrite append_cons; simpl.
    rewrite decide_False by congruence. by rewrite IH.
Qed.

End StrFacts.

(** ** The loop of [load] *)

Module ConfigFacts.
Import Str StrFacts Config.

Lemma load_line_parse (m : gmap string string) (line : string) :
  load_line m line = match parse_line line with
                     | Some (k, v) => <[k := v]> m
                     | None => m
                     end.
Proof. unfold load_line, parse_line. by destruct (find equals line). Qed.

Lemma parse_line_None (line : string) :
  parse_line line = None ↔ equals ∉ chars line.
Proof.
  unfold parse_line. rewrite <- find_None.
  destruct (find equals line); naive_solver.
Qed.

Lemma parse_line_entry (k v : string) :
  equals ∉ chars k → parse_line (k +:+ String equals v) = Some (k, v).
Proof.
  intros Hk. unfold parse_line. rewrite find_append by done.
  by rewrite substr_prefix_append, substr_from_append.
Qed.

Lemma parse_line_Some (line k v : string) :
  parse_line line = Some (k, v) →
  line = k +:+ String equals v ∧ equals ∉ chars k.
Proof.
  unfold parse_line. destruct (find equals line) as [p|] eqn:E; [| done].
  intros [= <- <-]. by apply find_split.
Qed.

(** The loop inserts the assignments of the text on top of the mapping,
    later lines winning over earlier ones. *)
Lemma foldl_load_line (lines : list string) (m : gmap string string) :
  foldl load_line m lines
  = list_to_map (reverse (omap parse_line lines)) ∪ m.
Proof.
  revert m. induction lines as [|l lines IH]; intros m; simpl.
  - by rewrite (left_id_L ∅ (∪)).
  - rewrite IH, load_line_parse. destruct (parse_line l) as [[k v]|]; [| done].
    rewrite reverse_cons, list_to_map_app; simpl.
    rewrite <- (assoc_L (∪)). f_equal.
    rewrite insert_empty. by rewrite <- insert_union_singleton_l.
Qed.

Lemma load_lines_union (text : string) (m : gmap string string) :
  load_lines text m = list_to_map (reverse (text_entries text)) ∪ m.
Proof. apply foldl_load_line. Qed.

(** Running the loop a second time over the same text changes nothing. *)
Lemma load_lines_idemp (text : string) (m : gmap string string) :
  load_lines text (load_lines text m) = load_lines text m.
Proof.
  rewrite !load_lines_union.
  by rewrite (assoc_L (∪)), (idemp_L (∪)).
Qed.

(** Keys that the text does not assign keep their entry or their absence. *)
Lemma load_lines_other (text : string) (m : gmap string string) (k : string) :
  k ∉ (text_entries text).*1 → load_lines text m !! k = m !! k.
Proof.
  intros Hk. rewrite load_lines_union, lookup_union_r; [done |].
  apply not_elem_of_list_to_map_1.
  by rewrite fmap_reverse, elem_of_reverse.
Qed.

(** The loop never deletes. *)
Lemma load_lines_keeps (text : string) (m : gmap string string) (k : string) :
  is_Some (m !! k) → is_Some (load_lines text m !! k).
Proof.
  intros Hk. rewrite load_lines_union, lookup_union. 
  destruct Hk as [v ->].
  by destruct (list_to_map (reverse (text_entries text)) !! k).
Qed.

End ConfigFacts.

(** ** The text that [save] writes *)

Module SaveFacts.
Import Str StrFacts Config ConfigFacts.

Lemma write_entry_line (out : string) (e : string * string) :
  write_entry out e = out +:+ entry_line e +:+ String newline EmptyString.
Proof. unfold write_entry, entry_line. by rewrite !append_assoc. Qed.

(** The output stream grows by one line per entry. *)
Lemma foldl_write_entry (l : list (string * string)) (out : string) :
  foldl write_entry out l
  = out +:+ foldr (λ e rest, entry_line e +:+ String newline rest) EmptyString l.
Proof.
  revert out. induction l as [|e l IH]; intros out; simpl.
  - by rewrite append_empty_r.
  - rewrite IH, write_entry_line, !append_assoc. 
    by rewrite append_cons, append_nil.
Qed.

Lemma entry_line_no_newline (e : string * string) :
  newline ∉ chars e.1 → newline ∉ chars e.2 → newline ∉ chars (entry_line e).
Proof.
  intros H1 H2. unfold entry_line. rewrite chars_append; simpl.
  rewrite elem_of_app, elem_of_cons. intros [?|[?|?]]; done.
Qed.

(** Reading the written text back line by line gives the written lines,
    provided no key and no value holds a newline. *)
Lemma getlines_written (l : list (string * string)) :
  Forall (λ e, (newline ∉ chars e.1) ∧ (newline ∉ chars e.2)) l →
  getlines (foldl write_entry EmptyString l) = entry_line <$> l.
Proof.
  rewrite foldl_write_entry, append_nil.
  induction 1 as [|e l [H1 H2] _ IH]; simpl; [done |].
  rewrite getlines_line by by apply entry_line_no_newline.
  by rewrite IH.
Qed.

(** Parsing the written lines gives the entries back, provided no key
    holds an ['=']. *)
Lemma parse_written (l : list (string * string)) :
  Forall (λ e, equals ∉ chars e.1) l →
  omap parse_line (entry_line <$> l) = l.
Proof.
  induction 1 as [|[k v] l Hk _ IH]; [done |].
  rewrite fmap_cons. cbn [omap list_omap].
  unfold entry_line at 1; simpl. rewrite parse_line_entry by done.
  by rewrite IH.
Qed.

(** The round trip on the level of the mapping: what the loop of [load]
    rebuilds from the text that the loop of [save] wrote.  Values may hold
    ['=']: only the first one on a line separates. *)
Lemma load_written (iter_order : gmap string string → list (string * string))
    (m : gmap string string) :
  enumerates iter_order →
  map_Forall (λ k v, (equals ∉ chars k) ∧ (newline ∉ chars k)
                     ∧ (newline ∉ chars v)) m →
  load_lines (foldl write_entry EmptyString (iter_order m)) ∅ = m.
Proof.
  intros Hperm Hm.
  assert (Forall (λ e, (equals ∉ chars e.1) ∧ (newline ∉ chars e.1)
                       ∧ (newline ∉ chars e.2)) (iter_order m)) as Hall.
  { rewrite (Hperm m). apply Forall_forall. intros [k v] Hin.
    apply elem_of_map_to_list in Hin. by apply (Hm k v). }
  rewrite load_lines_union, (right_id_L ∅ (∪)).
  unfold text_entries. rewrite getlines_written, parse_written.
  - rewrite <- (list_to_map_to_list m) at 2.
    apply list_to_map_proper.
    + rewrite reverse_Permutation, (Hperm m). apply NoDup_fst_map_to_list.
    + by rewrite reverse_Permutation.
  - eapply Forall_impl; [exact Hall | by intros ? (?&?&?)].
  - eapply Forall_impl; [exact Hall | by intros ? (?&?&?)].
Qed.

End SaveFacts.

(** ** Running the entry points of [Config] *)

Module RunFacts.
Import Str StrFacts Config ConfigFacts SaveFacts.

(** Unfolds the monad down to a [match] on the process. *)
Ltac run_m :=
  unfold mbind, M_bind, mret, M_ret, gets, modify, undefined_behaviour; simpl.

Lemma getConfigFilePath_run (st : Process) (h : string) :
  env_home st = Some h → getConfigFilePath st = Done (config_file h, st).
Proof.
  intros Hh. unfold getConfigFilePath, Sys.getenv_home, Sys.std_string.
  run_m. by rewrite Hh.
Qed.

Lemma getConfigFilePath_unset (st : Process) :
  env_home st = None → getConfigFilePath st = Undefined.
Proof.
  intros Hh. unfold getConfigFilePath, Sys.getenv_home, Sys.std_string.
  run_m. by rewrite Hh.
Qed.

(** [get] never reaches the inserting [operator[]] on an absent key: the
    [count] test guards it. *)
Lemma get_run (st : Process) (k : string) :
  get k st = Done (default EmptyString (s_values st !! k), st).
Proof.
  unfold get, count, index. run_m.
  destruct (s_values st !! k) eqn:E; simpl; by rewrite ?E.
Qed.

Section Iteration.

Variable iter_order : gmap string string → list (string * string).

(** With the home directory known, [save] is: create the parent directory,
    then rewrite the file. *)
Lemma save_run (st : Process) (h : string) :
  env_home st = Some h →
  save iter_order st
  = Sys.ofstream (config_file h) (written iter_order st)
      (with_dirs ({[ Sys.parent_path (config_file h) ]} ∪ dirs st) st).
Proof.
  intros Hh. unfold save, mbind, M_bind at 1.
  rewrite (getConfigFilePath_run st h Hh).
  unfold Sys.create_directories. by run_m.
Qed.

(** [save] completes; it leaves both static members and the environment
    alone. *)
Lemma save_done (st : Process) (h : string) :
  env_home st = Some h →
  ∃ st', save iter_order st = Done ((), st')
         ∧ s_values st' = s_values st
         ∧ s_root st' = s_root st
         ∧ env_home st' = Some h
         ∧ files st' !! config_file h
           = match files st !! config_file h with
             | None => Some (File true true (written iter_order st))
             | Some f =>
                 if writable f then Some (File (readable f) true (written iter_order st))
                 else Some f
             end.
Proof.
  intros Hh. rewrite (save_run st h Hh). unfold Sys.ofstream. run_m.
  destruct (files st !! config_file h) as [f|] eqn:Hf.
  - destruct (writable f) eqn:Hw; eexists; (split; [reflexivity |]);
      simpl; rewrite ?lookup_insert_eq; by repeat split.
  - eexists; (split; [reflexivity |]).
    simpl; rewrite ?lookup_insert_eq; by repeat split.
Qed.

(** With the home directory known, [load] has three branches: no file (then
    it is [save]), a file that cannot be opened (then nothing happens), and
    a file that is read line by line. *)
Lemma load_run (st : Process) (h : string) :
  env_home st = Some h →
  load iter_order st
  = match files st !! config_file h with
    | None => save iter_order st
    | Some f =>
        if readable f
        then Done ((), with_values (load_lines (contents f) (s_values st)) st)
        else Done ((), st)
    end.
Proof.
  intros Hh. unfold load, mbind, M_bind at 1.
  rewrite (getConfigFilePath_run st h Hh).
  unfold Sys.exists_, Sys.ifstream. run_m.
  destruct (files st !! config_file h) as [f|] eqn:Hf.
  - rewrite bool_decide_eq_true_2 by eauto. simpl. rewrite Hf.
    by destruct (readable f).
  - rewrite bool_decide_eq_false_2 by (by intros [? ?]). done.
Qed.

End Iteration.

End RunFacts.

(** * The contract of the configuration store *)

Section ConfigContract.
Import Str StrFacts Config ConfigFacts SaveFacts RunFacts.

Variable iter_order : gmap string string → list (string * string).

(** C1.  Round trip: for every mapping whose keys and values hold no ['=']
    and no newline, [save()] followed by [load()] into a fresh, empty
    store yields the original mapping again.  (The home directory is set,
    so that there is a configuration file to speak of, and the file can be
    written and read.) *)
Theorem save_load_round_trip (st : Process) (h : string) :
  enumerates iter_order →
  env_home st = Some h →
  usable (config_file h) st →
  plain_store (s_values st) →
  ∃ st1 st2,
    save iter_order st = Done ((), st1)
    ∧ load iter_order (fresh st1) = Done ((), st2)
    ∧ s_values st2 = s_values st.
Proof.
  intros Hperm Hh Hok Hplain.
  destruct (save_done iter_order st h Hh) as (st1 & Hsave & Hm & _ & Hh1 & Hf).
  assert (∃ r, files st1 !! config_file h = Some (File r true (written iter_order st))
               ∧ r = true) as (r & Hf1 & ->).
  { unfold usable in Hok. destruct (files st !! config_file h) as [f|].
    - destruct Hok as [Hr Hw]. rewrite Hw, Hr in Hf. eauto.
    - eauto. }
  exists st1, (with_values (load_lines (written iter_order st) ∅) (fresh st1)).
  split; [done |]. split.
  - rewrite (load_run iter_order (fresh st1) h) by done.
    simpl. by rewrite Hf1.
  - simpl. apply load_written; [done |].
    intros k v Hkv. destruct (Hplain k v Hkv) as [[? ?] [? ?]]. done.
Qed.

(** C2.  Each line that [load()] reads goes through [load_line], first line
    first.  A line without ['='] adds nothing.  A line with one splits at
    the first ['=']: the key is what precedes it, the value is everything
    that follows it, further ['='] included, and the assignment overwrites
    whatever the key was bound to.  The line [a=b=c] gives key [a] and
    value [b=c]. *)
Theorem load_splits_at_first_equals (m : gmap string string) :
  (∀ st h f, env_home st = Some h →
     files st !! config_file h = Some f → readable f = true →
     load iter_order st
     = Done ((), with_values
                   (foldl load_line (s_values st) (getlines (contents f))) st))
  ∧ (∀ line, equals ∉ chars line → load_line m line = m)
  ∧ (∀ line, equals ∈ chars line →
       ∃ k v, line = k +:+ "=" +:+ v ∧ (equals ∉ chars k)
              ∧ load_line m line = <[k := v]> m
              ∧ load_line m line !! k = Some v)
  ∧ (∀ k v, equals ∉ chars k → load_line m (k +:+ "=" +:+ v) = <[k := v]> m)
  ∧ load_line m "a=b=c" = <[ "a" := "b=c" ]> m.
Proof.
  repeat split.
  - intros st h f Hh Hf Hr. rewrite (load_run iter_order st h Hh), Hf. by rewrite Hr.
  - intros line Hline. rewrite load_line_parse.
    by apply parse_line_None in Hline as ->.
  - intros line Hline. apply find_is_Some in Hline as [p Hp].
    rewrite load_line_parse.
    destruct (parse_line line) as [[k v]|] eqn:E.
    + apply parse_line_Some in E as [-> Hk]. exists k, v.
      repeat split; [done | by rewrite lookup_insert_eq].
    + apply parse_line_None, find_None in E. congruence.
  - intros k v Hk. rewrite load_line_parse.
    change (k +:+ "=" +:+ v) with (k +:+ String equals v).
    by rewrite parse_line_entry.
Qed.

(** C3.  [get(key)] returns the stored value when the key is present and
    the empty string when it is absent.  Hence [get(k)] right after
    [set(k, v)] returns [v], and a key bound to the empty string cannot be
    told from an absent key through [get]. *)
Theorem get_returns_stored_or_empty :
  (∀ st k, get k st = Done (default EmptyString (s_values st !! k), st))
  ∧ (∀ st h k v, env_home st = Some h →
       ∃ st', set iter_order k v st = Done ((), st')
              ∧ get k st' = Done (v, st'))
  ∧ (∀ st1 st2 k,
       s_values st1 !! k = Some EmptyString → s_values st2 !! k = None →
       get k st1 = Done (EmptyString, st1) ∧ get k st2 = Done (EmptyString, st2)).
Proof.
  split; [exact get_run |]. split.
  - intros st h k v Hh. unfold set, index_assign, mbind, M_bind at 1. run_m.
    set (st0 := with_values (<[k:=v]> (s_values st)) st).
    destruct (save_done iter_order st0 h Hh) as (st' & Hsave & Hm & _).
    exists st'. split; [done |].
    rewrite get_run, Hm. simpl. by rewrite lookup_insert_eq.
  - intros st1 st2 k H1 H2. rewrite !get_run, H1, H2. done.
Qed.


(** C5.  With a configuration file in place, whatever its text and
    whatever the store holds, a second [load()] right after the first
    leaves the mapping, and the whole process, as the first one left it. *)
Theorem load_twice_is_load_once (st : Process) (h : string) :
  env_home st = Some h →
  is_Some (files st !! config_file h) →
  ∃ st1, load iter_order st = Done ((), st1)
         ∧ load iter_order st1 = Done ((), st1)
         ∧ (load iter_order;; load iter_order) st = load iter_order st.
Proof.
  intros Hh [f Hf].
  assert (∃ st1, load iter_order st = Done ((), st1)
                 ∧ load iter_order st1 = Done ((), st1)) as (st1 & H1 & H2).
  { rewrite (load_run iter_order st h Hh), Hf.
    destruct (readable f) eqn:Hr.
    - eexists. split; [reflexivity |].
      rewrite (load_run iter_order _ h) by done. simpl. rewrite Hf, Hr.
      unfold with_values; simpl. by rewrite load_lines_idemp.
    - exists st. split; [done |].
      by rewrite (load_run iter_order st h Hh), Hf, Hr. }
  exists st1. repeat split; try done.
  unfold mbind, M_bind at 1. by rewrite H1.
Qed.

(** When the first [load()] has to create the file, the second one reads
    back what the first wrote; the mapping is then unchanged as long as its
    keys hold no ['='] and neither keys nor values hold a newline. *)
Lemma load_twice_after_creation (st : Process) (h : string) :
  enumerates iter_order →
  env_home st = Some h →
  files st !! config_file h = None →
  map_Forall (λ k v, (equals ∉ chars k) ∧ (newline ∉ chars k)
                     ∧ (newline ∉ chars v)) (s_values st) →
  ∃ st1, load iter_order st = Done ((), st1)
         ∧ load iter_order st1 = Done ((), st1).
Proof.
  intros Hperm Hh Hnone Hm.
  rewrite (load_run iter_order st h Hh), Hnone.
  destruct (save_done iter_order st h Hh) as (st1 & Hsave & Hv & _ & Hh1 & Hf).
  rewrite Hnone in Hf. exists st1. split; [done |].
  rewrite (load_run iter_order st1 h Hh1), Hf; simpl.
  pose proof (load_written iter_order (s_values st) Hperm Hm) as Hback.
  rewrite load_lines_union, (right_id_L ∅ (∪)) in Hback.
  rewrite load_lines_union. fold (written iter_order st).
  rewrite Hv. unfold written. rewrite Hback, (idemp_L (∪)).
  rewrite <- Hv. by destruct st1.
Qed.

(** Without that proviso the created file may read back differently: the
    key [a=b] is written as the line [a=b=c], which the second [load()]
    splits into key [a] and value [b=c]. *)
Example load_after_creation_reparses :
  ∃ st1 st2,
    Config.load map_to_list
      (mkProcess {[ "a=b" := "c" ]} EmptyString (Some "/home/u") ∅ ∅)
    = Done ((), st1)
    ∧ Config.load map_to_list st1 = Done ((), st2)
    ∧ s_values st1 = {[ "a=b" := "c" ]}
    ∧ s_values st2 = {[ "a=b" := "c"; "a" := "b=c" ]}.
Proof. do 2 eexists. repeat split; vm_compute; reflexivity. Qed.

(** C9.  [load()] merges: it completes, every key that does not occur in
    the file keeps its entry (or stays absent), and no key is removed. *)
Theorem load_keeps_other_entries (st : Process) (h : string) :
  env_home st = Some h →
  ∃ st', load iter_order st = Done ((), st')
         ∧ (∀ k, k ∉ file_keys (config_file h) st →
                 s_values st' !! k = s_values st !! k)
         ∧ (∀ k, is_Some (s_values st !! k) → is_Some (s_values st' !! k)).
Proof.
  intros Hh. rewrite (load_run iter_order st h Hh). unfold file_keys.
  destruct (files st !! config_file h) as [f|] eqn:Hf.
  - destruct (readable f).
    + eexists. split; [reflexivity |]. simpl. split.
      * intros k Hk. by apply load_lines_other.
      * intros k Hk. by apply load_lines_keeps.
    + exists st. by repeat split.
  - destruct (save_done iter_order st h Hh) as (st' & Hsave & Hm & _).
    exists st'. rewrite Hm. by repeat split.
Qed.

(** C10.  [get(key)] leaves the process as it is.  On an absent key it
    returns the empty string without inserting the key, so the entries
    that a following [save()] writes contain none for that key, and
    [save()] does after the query exactly what it does without it. *)
Theorem get_does_not_insert (st : Process) (k : string) :
  enumerates iter_order →
  (∃ v, get k st = Done (v, st))
  ∧ (s_values st !! k = None →
     get k st = Done (EmptyString, st)
     ∧ (k ∉ (iter_order (s_values st)).*1)
     ∧ (get k;; save iter_order) st = save iter_order st).
Proof.
  intros Hperm.
  pose proof (get_run st k) as Hget.
  split; [eauto |]. intros Hnone. rewrite Hget, Hnone. repeat split.
  - rewrite (Hperm (s_values st)). intros Hin.
    apply list_elem_of_fmap in Hin as ([k' v] & -> & Hin).
    apply elem_of_map_to_list in Hin. simpl in Hnone. congruence.
  - unfold mbind, M_bind at 1. by rewrite (get_run st k).
Qed.

End ConfigContract.

(** * The contract of the path registry *)

Module PathsFacts.
Import Config RunFacts.

(** With the home directory known, [init] completes and stores the root. *)
Lemma init_run (st : Process) (h : string) :
  env_home st = Some h →
  ∃ st', Paths.init st = Done ((), st')
         ∧ s_root st' = h +:+ "/.machine_spirit/"
         ∧ s_values st' = s_values st
         ∧ env_home st' = Some h
         ∧ files st' = files st
         ∧ (∀ c, s_root st' +:+ Paths.category_name c +:+ "/" ∈ dirs st').
Proof.
  intros Hh. unfold Paths.init, Sys.getenv_home, Sys.std_string.
  run_m. rewrite Hh. eexists. split; [reflexivity |]. simpl.
  do 4 (split; [done |]).
  intros c. rewrite !elem_of_union, !elem_of_singleton.
  destruct c; simpl; tauto.
Qed.

Lemma init_unset (st : Process) :
  env_home st = None → Paths.init st = Undefined.
Proof.
  intros Hh. unfold Paths.init, Sys.getenv_home, Sys.std_string.
  run_m. by rewrite Hh.
Qed.

Section Iteration.

Variable iter_order : gmap string string → list (string * string).

Lemma save_root (st st' : Process) :
  save iter_order st = Done ((), st') → s_root st' = s_root st.
Proof.
  destruct (env_home st) as [h|] eqn:Hh.
  - destruct (save_done iter_order st h Hh) as (st1 & -> & _ & Hr & _).
    by intros [= <-].
  - unfold save, mbind, M_bind at 1.
    by rewrite (getConfigFilePath_unset st Hh).
Qed.

Lemma load_root (st st' : Process) :
  load iter_order st = Done ((), st') → s_root st' = s_root st.
Proof.
  destruct (env_home st) as [h|] eqn:Hh.
  - rewrite (load_run iter_order st h Hh).
    destruct (files st !! config_file h) as [f|]; [| apply save_root].
    destruct (readable f); by intros [= <-].
  - unfold load, mbind, M_bind at 1.
    by rewrite (getConfigFilePath_unset st Hh).
Qed.

Lemma set_root (st st' : Process) (k v : string) :
  set iter_order k v st = Done ((), st') → s_root st' = s_root st.
Proof.
  unfold set, index_assign, mbind, M_bind at 1. run_m.
  intros Hsave. by apply save_root in Hsave.
Qed.

(** Only [init] writes [s_root]. *)
Lemma exec_root (c : call) (st st' : Process) :
  c ≠ CallInit →
  exec iter_order c st = Done ((), st') → s_root st' = s_root st.
Proof.
  intros Hc. destruct c as [| |k|k v| | | |c]; simpl.
  - apply load_root.
  - apply save_root.
  - unfold mbind, M_bind. rewrite get_run. by intros [= <-].
  - apply set_root.
  - unfold mbind, M_bind. destruct (env_home st) as [h|] eqn:Hh.
    + rewrite (getConfigFilePath_run st h Hh). by intros [= <-].
    + by rewrite (getConfigFilePath_unset st Hh).
  - done.
  - by intros [= <-].
  - destruct c; by intros [= <-].
Qed.

Lemma run_root (cs : list call) (st st' : Process) :
  CallInit ∉ cs →
  run iter_order cs st = Done ((), st') → s_root st' = s_root st.
Proof.
  revert st. induction cs as [|c cs IH]; intros st Hcs; simpl.
  - by intros [= <-].
  - apply not_elem_of_cons in Hcs as [Hc Hcs].
    unfold mbind, M_bind at 1.
    destruct (exec iter_order c st) as [[[] st1]|] eqn:E; [| done].
    intros Hrun. rewrite (IH st1 Hcs Hrun).
    by apply (exec_root c).
Qed.

End Iteration.

End PathsFacts.

Section PathsContract.
Import Config RunFacts PathsFacts.

(** C6.  In every process, whether [init()] has run or not, each of the
    nine category accessors returns what [root()] returns, followed by the
    name of its category and a ['/'].  It always completes and it leaves
    the process, disk included, exactly as it was. *)
Theorem accessor_is_root_plus_category (st : Process) (c : Paths.category) :
  ∃ r, Paths.root st = Done (r, st)
       ∧ Paths.accessor c st = Done (r +:+ Paths.category_name c +:+ "/", st).
Proof. exists (s_root st). split; [done |]. by destruct c. Qed.

(** C7.  As long as [init()] has not been called, whatever else has been,
    [root()] returns the empty string; right after [init()] it returns the
    home directory followed by [/.machine_spirit/]. *)
Theorem root_before_and_after_init
    (iter_order : gmap string string → list (string * string)) :
  (∀ home fs ds cs st,
     CallInit ∉ cs →
     run iter_order cs (initial home fs ds) = Done ((), st) →
     Paths.root st = Done (EmptyString, st))
  ∧ (∀ st h, env_home st = Some h →
       ∃ st', Paths.init st = Done ((), st')
              ∧ Paths.root st' = Done (h +:+ "/.machine_spirit/", st')).
Proof.
  split.
  - intros home fs ds cs st Hcs Hrun.
    apply (run_root iter_order cs _ st Hcs) in Hrun.
    unfold Paths.root, gets. by rewrite Hrun.
  - intros st h Hh. destruct (init_run st h Hh) as (st' & Hinit & Hr & _).
    exists st'. split; [done |]. unfold Paths.root, gets. by rewrite Hr.
Qed.


End PathsContract.

(** * The theorems at concrete processes *)

Lemma map_to_list_enumerates : enumerates map_to_list.
Proof. by intros m. Qed.

Lemma save_load_round_trip_witness :
  ∃ st1 st2,
    Config.save map_to_list stored = Done ((), st1)
    ∧ Config.load map_to_list (fresh st1) = Done ((), st2)
    ∧ s_values st2 = {[ "k" := "v"; "name" := "machine spirit" ]}.
Proof.
  apply (save_load_round_trip map_to_list stored "/home/u").
  - exact map_to_list_enumerates.
  - reflexivity.
  - vm_compute. exact I.
  - apply (bool_decide_unpack _). vm_compute. exact I.
Defined.

Lemma load_splits_at_first_equals_witness :
  Config.load_line ∅ "novalue" = ∅
  ∧ Config.load_line {[ "a" := "old" ]} "a=b=c" = {[ "a" := "b=c" ]}.
Proof.
  split.
  - apply (proj1 (proj2 (load_splits_at_first_equals map_to_list ∅)) "novalue").
    apply (bool_decide_unpack _). vm_compute. exact I.
  - rewrite (proj1 (proj2 (proj2 (proj2
               (load_splits_at_first_equals map_to_list {[ "a" := "old" ]}))))
               "a" "b=c").
    + vm_compute. reflexivity.
    + apply (bool_decide_unpack _). vm_compute. exact I.
Defined.

Lemma get_returns_stored_or_empty_witness :
  ∃ st', Config.set map_to_list "k" "v" demo = Done ((), st')
         ∧ Config.get "k" st' = Done ("v", st').
Proof.
  apply (proj1 (proj2 (get_returns_stored_or_empty map_to_list))
           demo "/home/u" "k" "v").
  reflexivity.
Defined.


Lemma load_twice_is_load_once_witness :
  ∃ st1, Config.load map_to_list on_disk = Done ((), st1)
         ∧ Config.load map_to_list st1 = Done ((), st1)
         ∧ (Config.load map_to_list;; Config.load map_to_list) on_disk
           = Config.load map_to_list on_disk.
Proof.
  apply (load_twice_is_load_once map_to_list on_disk "/home/u").
  - reflexivity.
  - vm_compute. eexists. reflexivity.
Defined.

Lemma root_before_and_after_init_witness :
  ∃ st, run map_to_list [CallSet "k" "v"; CallLoad; CallAccessor Paths.Clogs] demo
        = Done ((), st)
        ∧ Paths.root st = Done (EmptyString, st).
Proof.
  eexists. split.
  - vm_compute. reflexivity.
  - apply (proj1 (root_before_and_after_init map_to_list)
             (Some "/home/u") ∅ ∅
             [CallSet "k" "v"; CallLoad; CallAccessor Paths.Clogs]).
    + intros Hin. repeat (apply elem_of_cons in Hin as [Hin|Hin]; [discriminate |]).
      by apply elem_of_nil in Hin.
    + vm_compute. reflexivity.
Defined.


Lemma load_keeps_other_entries_witness :
  ∃ st', Config.load map_to_list on_disk = Done ((), st')
         ∧ (∀ k, k ∉ file_keys (config_file "/home/u") on_disk →
                 s_values st' !! k = s_values on_disk !! k)
         ∧ (∀ k, is_Some (s_values on_disk !! k) → is_Some (s_values st' !! k)).
Proof.
  apply (load_keeps_other_entries map_to_list on_disk "/home/u").
  reflexivity.
Defined.

Lemma get_does_not_insert_witness :
  (∃ v, Config.get "k" demo = Done (v, demo))
  ∧ (s_values demo !! "k" = None →
     Config.get "k" demo = Done (EmptyString, demo)
     ∧ ("k" ∉ (map_to_list (s_values demo)).*1)
     ∧ (Config.get "k";; Config.save map_to_list) demo
       = Config.save map_to_list demo).
Proof.
  apply (get_does_not_insert map_to_list demo "k").
  exact map_to_list_enumerates.
Defined.


(** * Further properties of the configuration store *)

Module LinesFacts.
Import Str StrFacts Config ConfigFacts.

(** No line that [getline] delivers holds a newline. *)
Lemma getlines_no_newline (t : string) :
  Forall (λ l, newline ∉ chars l) (getlines t).
Proof.
  induction t as [|c t IH]; simpl; [constructor |].
  destruct (decide (c = newline)) as [->|Hc].
  - constructor; [apply not_elem_of_nil | done].
  - destruct (getlines t) as [|l ls].
    + repeat constructor. by intros ?%list_elem_of_singleton.
    + inversion_clear IH as [|? ? Hl Hls]. constructor; [| done].
      simpl. apply not_elem_of_cons. split; [congruence | done].
Qed.

(** Only the empty text has no line. *)
Lemma getlines_nil (t : string) : getlines t = [] → t = EmptyString.
Proof.
  destruct t as [|c t]; [done |]. simpl.
  destruct (decide (c = newline)); [done |]. by destruct (getlines t).
Qed.

(** One more newline at the end of a text adds at most one empty line. *)
Lemma getlines_newline_end (t : string) :
  ∃ extra, getlines (t +:+ String newline EmptyString) = getlines t ++ extra
           ∧ (extra = [] ∨ extra = [EmptyString]).
Proof.
  induction t as [|c t (extra & IH & Hextra)].
  - exists [EmptyString]. split; [done | by right].
  - rewrite append_cons; simpl.
    destruct (decide (c = newline)).
    + exists extra. by rewrite IH.
    + rewrite IH. destruct (getlines t) as [|l ls] eqn:Hl.
      * exists []. split; [| by left].
        apply getlines_nil in Hl as ->. simpl in IH. by rewrite <- IH.
      * exists extra. by split.
Qed.

(** Every assignment read from a text has a key without ['='] and without
    newline, and a value without newline. *)
Lemma text_entries_wf (t : string) :
  Forall (λ e, (equals ∉ chars e.1) ∧ (newline ∉ chars e.1)
               ∧ (newline ∉ chars e.2)) (text_entries t).
Proof.
  unfold text_entries. apply Forall_forall. intros [k v] Hin.
  apply list_elem_of_omap in Hin as (line & Hline & Hparse).
  apply parse_line_Some in Hparse as [-> Hk].
  pose proof (getlines_no_newline t) as Hall.
  rewrite Forall_forall in Hall. apply Hall in Hline.
  rewrite chars_append in Hline. simpl in *.
  rewrite elem_of_app, elem_of_cons in Hline. naive_solver.
Qed.

(** What the loop leaves under a key is the value of the last line that
    assigns the key. *)
Lemma load_lines_last (t : string) (m : gmap string string)
    (before after : list (string * string)) (k v : string) :
  text_entries t = before ++ (k, v) :: after →
  k ∉ after.*1 →
  load_lines t m !! k = Some v.
Proof.
  intros Ht Hafter. rewrite load_lines_union, Ht.
  rewrite reverse_app, reverse_cons, <- (assoc_L (++)); simpl.
  rewrite list_to_map_app, <- (assoc_L (∪)).
  rewrite lookup_union_r.
  - rewrite list_to_map_cons. apply lookup_union_Some_l, lookup_insert_eq.
  - apply not_elem_of_list_to_map_1. by rewrite fmap_reverse, elem_of_reverse.
Qed.

(** An entry found after the loop was there before, or comes from a line. *)
Lemma load_lines_origin (t : string) (m : gmap string string) (k v : string) :
  load_lines t m !! k = Some v →
  (k, v) ∈ text_entries t ∨ m !! k = Some v.
Proof.
  rewrite load_lines_union, lookup_union_Some_raw.
  intros [H|[_ H]]; [| by right].
  left. apply elem_of_list_to_map_2 in H. by rewrite elem_of_reverse in H.
Qed.

End LinesFacts.

Module StoreFacts.
Import Str StrFacts Config ConfigFacts SaveFacts RunFacts LinesFacts.


(** With a file in place [load] only reads. *)
Lemma load_existing
    (iter_order : gmap string string → list (string * string))
    (st : Process) (h : string) (f : file) :
  env_home st = Some h →
  files st !! config_file h = Some f →
  load iter_order st
  = Done ((), if readable f
              then with_values (load_lines (contents f) (s_values st)) st
              else st).
Proof.
  intros Hh Hf. rewrite (load_run iter_order st h Hh), Hf.
  by destruct (readable f).
Qed.

Lemma with_values_same (st : Process) : with_values (s_values st) st = st.
Proof. by destruct st. Qed.

(** Reading back what was written on top of the very mapping it was
    written from changes nothing. *)
Lemma load_lines_written
    (iter_order : gmap string string → list (string * string))
    (m : gmap string string) :
  enumerates iter_order → storable m →
  load_lines (foldl write_entry EmptyString (iter_order m)) m = m.
Proof.
  intros Hperm Hm.
  pose proof (load_written iter_order m Hperm Hm) as Hback.
  rewrite load_lines_union, (right_id_L ∅ (∪)) in Hback.
  by rewrite load_lines_union, Hback, (idemp_L (∪)).
Qed.

(** After [save] the file mirrors the store: a [load] in the same process
    finds nothing to change. *)
Lemma load_after_save
    (iter_order : gmap string string → list (string * string))
    (st : Process) (h : string) :
  enumerates iter_order →
  env_home st = Some h →
  usable (config_file h) st →
  storable (s_values st) →
  ∃ st1, save iter_order st = Done ((), st1)
         ∧ load iter_order st1 = Done ((), st1)
         ∧ s_values st1 = s_values st.
Proof.
  intros Hperm Hh Hok Hm.
  destruct (save_done iter_order st h Hh) as (st1 & Hsave & Hv & _ & Hh1 & Hf).
  exists st1. split; [done |]. split; [| done].
  assert (files st1 !! config_file h
          = Some (File true true (written iter_order st))) as Hf1.
  { unfold usable in Hok. destruct (files st !! config_file h) as [f|]; [| done].
    destruct Hok as [Hr Hw]. by rewrite Hw, Hr in Hf. }
  rewrite (load_existing iter_order st1 h _ Hh1 Hf1); simpl.
  unfold written. rewrite Hv, load_lines_written by done.
  by rewrite <- Hv, with_values_same.
Qed.

End StoreFacts.

Section StoreProperties.
Import Str StrFacts Config ConfigFacts SaveFacts RunFacts LinesFacts StoreFacts.

Variable iter_order : gmap string string → list (string * string).

(** X1.  A newline more or less at the end of the configuration file makes
    no difference to what [load()] leaves in the store: a last line needs
    no newline, and an empty last line assigns nothing. *)
Theorem load_ignores_final_newline
    (st : Process) (h t : string) (r w : bool) :
  env_home st = Some h →
  ∃ st1 st2,
    load iter_order
      (with_files (<[config_file h := File r w t]> (files st)) st)
    = Done ((), st1)
    ∧ load iter_order
        (with_files
           (<[config_file h := File r w (t +:+ String newline EmptyString)]>
              (files st)) st)
      = Done ((), st2)
    ∧ s_values st1 = s_values st2.
Proof.
  intros Hh.
  rewrite !(load_existing iter_order _ h (File r w _))
    by (done || apply lookup_insert_eq).
  do 2 eexists. do 2 (split; [reflexivity |]).
  destruct r; simpl; [| done]. unfold load_lines.
  destruct (getlines_newline_end t) as (extra & -> & [->| ->]).
  - by rewrite app_nil_r.
  - by rewrite foldl_app.
Qed.

(** X2.  When several lines of the file assign the same key, the last one
    wins, also over the value the store held: after [load()], [get] returns
    the value of the last line for that key. *)
Theorem load_last_assignment_wins
    (st : Process) (h : string) (f : file)
    (before after : list (string * string)) (k v : string) :
  env_home st = Some h →
  files st !! config_file h = Some f →
  readable f = true →
  text_entries (contents f) = before ++ (k, v) :: after →
  k ∉ after.*1 →
  ∃ st', load iter_order st = Done ((), st') ∧ get k st' = Done (v, st').
Proof.
  intros Hh Hf Hr Ht Hafter.
  rewrite (load_existing iter_order st h f Hh Hf), Hr.
  eexists. split; [reflexivity |].
  rewrite get_run; simpl.
  by rewrite (load_lines_last _ _ before after k v).
Qed.

(** X3.  Whatever the file holds, every entry of the store after [load()]
    either was there before with the same value, or has a key without
    ['='] and without newline and a value without newline. *)
Theorem load_introduces_only_storable_entries (st : Process) (h : string) :
  env_home st = Some h →
  ∃ st', load iter_order st = Done ((), st')
         ∧ ∀ k v, s_values st' !! k = Some v →
                  s_values st !! k = Some v
                  ∨ ((equals ∉ chars k) ∧ (newline ∉ chars k)
                     ∧ (newline ∉ chars v)).
Proof.
  intros Hh. rewrite (load_run iter_order st h Hh).
  destruct (files st !! config_file h) as [f|] eqn:Hf.
  - destruct (readable f); eexists; (split; [reflexivity |]); [| by left].
    simpl. intros k v [Hin|Hold]%load_lines_origin; [right | by left].
    pose proof (text_entries_wf (contents f)) as Hall.
    rewrite Forall_forall in Hall. by apply (Hall (k, v)).
  - destruct (save_done iter_order st h Hh) as (st' & Hsave & Hv & _).
    exists st'. split; [done |]. rewrite Hv. by left.
Qed.

(** X4.  The round trip of [save()] and a [load()] into an empty store gives
    the mapping back exactly when the mapping is [storable]: an ['='] in a
    value does no harm, an ['='] in a key or a newline anywhere does. *)
Theorem round_trip_iff_storable (st : Process) (h : string) :
  enumerates iter_order →
  env_home st = Some h →
  usable (config_file h) st →
  ∃ st1 st2,
    save iter_order st = Done ((), st1)
    ∧ load iter_order (fresh st1) = Done ((), st2)
    ∧ (s_values st2 = s_values st ↔ storable (s_values st)).
Proof.
  intros Hperm Hh Hok.
  destruct (save_done iter_order st h Hh) as (st1 & Hsave & Hm & _ & Hh1 & Hf).
  assert (files st1 !! config_file h
          = Some (File true true (written iter_order st))) as Hf1.
  { unfold usable in Hok. destruct (files st !! config_file h) as [f|]; [| done].
    destruct Hok as [Hr Hw]. by rewrite Hw, Hr in Hf. }
  exists st1. eexists. split; [done |]. split.
  - by rewrite (load_existing iter_order (fresh st1) h _ Hh1 Hf1).
  - simpl. split.
    + intros Hback k v Hkv. rewrite <- Hback in Hkv.
      apply load_lines_origin in Hkv as [Hin|Hempty]; [| done].
      pose proof (text_entries_wf (written iter_order st)) as Hall.
      rewrite Forall_forall in Hall. by apply (Hall (k, v)).
    + intros Hsto. by apply load_written.
Qed.

(** X5.  After [set(k, v)] the file mirrors the store: if the updated
    mapping is [storable], a [load()] right after the [set] changes
    nothing at all. *)
Theorem load_after_set_changes_nothing
    (st : Process) (h k v : string) :
  enumerates iter_order →
  env_home st = Some h →
  usable (config_file h) st →
  storable (<[k := v]> (s_values st)) →
  ∃ st1, set iter_order k v st = Done ((), st1)
         ∧ s_values st1 = <[k := v]> (s_values st)
         ∧ (set iter_order k v;; load iter_order) st
           = set iter_order k v st.
Proof.
  intros Hperm Hh Hok Hsto.
  destruct (load_after_save iter_order
              (with_values (<[k := v]> (s_values st)) st) h)
    as (st1 & Hsave & Hload & Hv); try done.
  assert (set iter_order k v st = Done ((), st1)) as Hset.
  { unfold set, index_assign, mbind, M_bind at 1. by run_m. }
  exists st1. split; [done |]. split; [done |].
  unfold mbind, M_bind at 1. by rewrite Hset.
Qed.

(** X6.  [set(k, v)] leaves every other key as it was: [get] on another
    key returns after the [set] what it returned before. *)
Theorem set_leaves_other_keys (st : Process) (h k v k' : string) :
  env_home st = Some h →
  k ≠ k' →
  ∃ st' r, set iter_order k v st = Done ((), st')
           ∧ get k' st = Done (r, st)
           ∧ get k' st' = Done (r, st').
Proof.
  intros Hh Hne.
  destruct (save_done iter_order
              (with_values (<[k := v]> (s_values st)) st) h Hh)
    as (st' & Hsave & Hv & _).
  exists st', (default EmptyString (s_values st !! k')).
  split; [| split].
  - unfold set, index_assign, mbind, M_bind at 1. by run_m.
  - apply get_run.
  - rewrite get_run, Hv. simpl. by rewrite lookup_insert_ne.
Qed.

End StoreProperties.

Module DiskFacts.
Import Str StrFacts Config ConfigFacts SaveFacts RunFacts LinesFacts StoreFacts.

Section Iteration.

Variable iter_order : gmap string string → list (string * string).

(** With a file in place a second [load] repeats the first to no effect,
    and neither touches the disk. *)
Lemma load_existing_settled (st : Process) (h : string) (f : file) :
  env_home st = Some h →
  files st !! config_file h = Some f →
  ∃ st1, load iter_order st = Done ((), st1)
         ∧ load iter_order st1 = Done ((), st1)
         ∧ files st1 = files st
         ∧ dirs st1 = dirs st
         ∧ s_root st1 = s_root st
         ∧ env_home st1 = Some h.
Proof.
  intros Hh Hf. rewrite (load_existing iter_order st h f Hh Hf).
  destruct (readable f) eqn:Hr.
  - eexists. split; [reflexivity |]. split; [| done].
    rewrite (load_existing iter_order _ h f) by done. rewrite Hr. simpl.
    unfold with_values; simpl. by rewrite load_lines_idemp.
  - exists st. split; [done |]. split; [| done].
    by rewrite (load_existing iter_order st h f Hh Hf), Hr.
Qed.


End Iteration.

End DiskFacts.

Section DiskProperties.
Import Str StrFacts Config ConfigFacts SaveFacts RunFacts LinesFacts StoreFacts.
Import DiskFacts.

Variable iter_order : gmap string string → list (string * string).



(** X9.  Whatever the store and the disk hold, [load()] has settled after
    its second call: a third call changes nothing any more.  (The first
    call may create the file, the second may read back keys that the first
    wrote in another form.) *)
Theorem load_settles_after_second_call (st : Process) (h : string) :
  env_home st = Some h →
  ∃ st1 st2, load iter_order st = Done ((), st1)
             ∧ load iter_order st1 = Done ((), st2)
             ∧ load iter_order st2 = Done ((), st2).
Proof.
  intros Hh. destruct (files st !! config_file h) as [f|] eqn:Hf.
  - destruct (load_existing_settled iter_order st h f Hh Hf)
      as (st1 & Hload & Hagain & _).
    by exists st1, st1.
  - rewrite (load_run iter_order st h Hh), Hf.
    destruct (save_done iter_order st h Hh) as (st1 & Hsave & _ & _ & Hh1 & Hf1).
    rewrite Hf in Hf1.
    destruct (load_existing_settled iter_order st1 h _ Hh1 Hf1)
      as (st2 & Hload & _ & Hfiles & _ & _ & Hh2).
    rewrite <- Hfiles in Hf1.
    destruct (load_existing_settled iter_order st2 h _ Hh2 Hf1)
      as (st3 & Hload3 & Hagain & _).
    exists st1, st2. split; [done |]. split; [done |].
    assert (st3 = st2) as ->; [| done].
    rewrite (load_existing iter_order st1 h _ Hh1) in Hload
      by (by rewrite <- Hfiles).
    rewrite (load_existing iter_order st2 h _ Hh2 Hf1) in Hload3.
    simpl in *. injection Hload as <-. injection Hload3 as <-.
    unfold with_values; simpl. by rewrite load_lines_idemp.
Qed.

(** X10.  A second [save()] right after the first changes nothing: the
    store has not changed, so the same text is written again. *)
Theorem save_twice_is_save_once (st : Process) :
  (save iter_order;; save iter_order) st = save iter_order st.
Proof.
  unfold mbind at 1, M_bind at 1.
  destruct (env_home st) as [h|] eqn:Hh.
  - destruct (save_done iter_order st h Hh) as (st1 & Hsave & Hv & _ & Hh1 & Hf).
    rewrite Hsave. rewrite <- Hsave.
    rewrite (save_run iter_order st h Hh) in Hsave |- *.
    rewrite (save_run iter_order st1 h Hh1).
    unfold written. rewrite Hv. fold (written iter_order st).
    unfold Sys.ofstream, modify in *. injection Hsave as <-. simpl.
    destruct (files st !! config_file h) as [f|] eqn:Hfile; simpl.
    + destruct (writable f) eqn:Hw; simpl.
      * rewrite lookup_insert_eq; simpl. unfold with_files, with_dirs; simpl.
        rewrite insert_insert_eq.
        by rewrite (assoc_L (∪)), (idemp_L (∪)).
      * rewrite Hfile, Hw. unfold with_dirs; simpl.
        by rewrite (assoc_L (∪)), (idemp_L (∪)).
    + rewrite lookup_insert_eq; simpl. unfold with_files, with_dirs; simpl.
      rewrite insert_insert_eq.
      by rewrite (assoc_L (∪)), (idemp_L (∪)).
  - assert (save iter_order st = Undefined) as ->; [| done].
    unfold save, mbind, M_bind at 1.
    by rewrite (getConfigFilePath_unset st Hh).
Qed.

End DiskProperties.

(** * Further properties of the path registry *)

Module InitFacts.
Import Str StrFacts RunFacts.

(** With the home directory known, the process that [init] leaves. *)
Lemma init_exact (st : Process) (h : string) :
  env_home st = Some h →
  Paths.init st
  = Done ((), with_dirs (category_dirs (root_of h) ∪ dirs st)
                (with_root (root_of h) st)).
Proof.
  intros Hh.
  unfold Paths.init, Sys.getenv_home, Sys.std_string, Sys.create_directories.
  run_m. rewrite Hh. unfold with_dirs, with_root; simpl.
  do 3 f_equal. unfold category_dirs, root_of; simpl.
  apply leibniz_equiv, set_equiv. intros p.
  rewrite !elem_of_union, !elem_of_singleton, elem_of_empty. tauto.
Qed.


End InitFacts.

Section RegistryProperties.
Import Str StrFacts RunFacts PathsFacts InitFacts.


(** X12.  [init()] can be repeated: a second call right after the first
    changes nothing, and with the home variable unset both are undefined
    alike. *)
Theorem init_twice_is_init_once (st : Process) :
  (Paths.init;; Paths.init) st = Paths.init st.
Proof.
  unfold mbind at 1, M_bind at 1.
  destruct (env_home st) as [h|] eqn:Hh.
  - rewrite (init_exact st h Hh), (init_exact _ h) by done.
    unfold with_dirs, with_root; simpl.
    by rewrite (assoc_L (∪)), (idemp_L (∪)).
  - by rewrite (init_unset st Hh).
Qed.

(** X13.  No two categories share a directory: accessors of different
    categories return different paths, whatever the root is. *)
Theorem category_paths_are_distinct
    (st : Process) (c1 c2 : Paths.category) (p : string) :
  Paths.accessor c1 st = Done (p, st) →
  Paths.accessor c2 st = Done (p, st) →
  c1 = c2.
Proof.
  intros H1 H2. rewrite <- H2 in H1.
  destruct c1, c2; try reflexivity;
    injection H1 as H1; apply (inj (String.app _)) in H1; discriminate.
Qed.

(** X14.  The configuration file lies directly under the root: after
    [init()], [getConfigFilePath()] is [root()] followed by [config.ini].
    It does not lie in the [config/] directory that [init()] creates: no
    path under [config()] is the path of the configuration file. *)
Theorem config_file_is_not_under_config_directory (st : Process) (h : string) :
  env_home st = Some h →
  ∃ st' r d,
    Paths.init st = Done ((), st')
    ∧ Paths.root st' = Done (r, st')
    ∧ Paths.config st' = Done (d, st')
    ∧ Config.getConfigFilePath st' = Done (r +:+ "config.ini", st')
    ∧ ∀ rest, d +:+ rest ≠ r +:+ "config.ini".
Proof.
  intros Hh. rewrite (init_exact st h Hh).
  eexists. exists (root_of h), (root_of h +:+ "config/").
  split; [reflexivity |]. split; [done |]. split; [done |]. split.
  - rewrite (getConfigFilePath_run _ h) by done.
    unfold config_file, root_of. by rewrite append_assoc.
  - intros rest. unfold root_of. rewrite !append_assoc.
    intros Heq. apply (inj (String.app _)) in Heq. discriminate.
Qed.

End RegistryProperties.

(** * Call sequences *)

Module KeysFacts.
Import Config ConfigFacts RunFacts.

Section Iteration.

Variable iter_order : gmap string string → list (string * string).

Lemma save_values (st st' : Process) :
  save iter_order st = Done ((), st') → s_values st' = s_values st.
Proof.
  destruct (env_home st) as [h|] eqn:Hh.
  - destruct (save_done iter_order st h Hh) as (st1 & -> & Hv & _).
    by intros [= <-].
  - unfold save, mbind, M_bind at 1.
    by rewrite (getConfigFilePath_unset st Hh).
Qed.

(** No entry point removes a key from the store. *)
Lemma exec_keeps_keys (c : call) (st st' : Process) (k : string) :
  exec iter_order c st = Done ((), st') →
  is_Some (s_values st !! k) → is_Some (s_values st' !! k).
Proof.
  destruct c as [| |k0|k0 v| | | |c]; simpl.
  - destruct (env_home st) as [h|] eqn:Hh.
    + rewrite (load_run iter_order st h Hh).
      destruct (files st !! config_file h) as [f|].
      * destruct (readable f); intros [= <-]; [| done].
        simpl. apply load_lines_keeps.
      * intros Hsave. by rewrite (save_values st st' Hsave).
    + unfold load, mbind, M_bind at 1.
      by rewrite (getConfigFilePath_unset st Hh).
  - intros Hsave. by rewrite (save_values st st' Hsave).
  - unfold mbind, M_bind. rewrite get_run. by intros [= <-].
  - unfold set, index_assign, mbind, M_bind at 1. run_m.
    intros Hsave. rewrite (save_values _ st' Hsave). simpl.
    intros Hk. rewrite lookup_insert. by destruct (decide (k0 = k)).
  - unfold mbind, M_bind. destruct (env_home st) as [h|] eqn:Hh.
    + rewrite (getConfigFilePath_run st h Hh). by intros [= <-].
    + by rewrite (getConfigFilePath_unset st Hh).
  - destruct (env_home st) as [h|] eqn:Hh.
    + destruct (PathsFacts.init_run st h Hh) as (st1 & -> & _ & Hv & _).
      intros [= <-]. by rewrite Hv.
    + by rewrite (PathsFacts.init_unset st Hh).
  - by intros [= <-].
  - destruct c; by intros [= <-].
Qed.

End Iteration.

End KeysFacts.

(** X15.  The two classes offer no way to remove a key: a key that is in
    the store stays in the store through every sequence of calls. *)
Theorem calls_never_remove_a_key
    (iter_order : gmap string string → list (string * string))
    (cs : list call) (st st' : Process) (k : string) :
  run iter_order cs st = Done ((), st') →
  is_Some (s_values st !! k) → is_Some (s_values st' !! k).
Proof.
  revert st. induction cs as [|c cs IH]; intros st; simpl.
  - by intros [= <-].
  - unfold mbind, M_bind at 1.
    destruct (exec iter_order c st) as [[[] st1]|] eqn:E; [| done].
    intros Hrun Hk. apply (IH st1 Hrun).
    by apply (KeysFacts.exec_keeps_keys iter_order c st).
Qed.

(** * The further properties at concrete processes *)

Lemma load_ignores_final_newline_witness :
  ∃ st1 st2,
    Config.load map_to_list
      (with_files (<[config_file "/home/u" := File true true "k=v"]> (files demo))
         demo)
    = Done ((), st1)
    ∧ Config.load map_to_list
        (with_files
           (<[config_file "/home/u"
                := File true true ("k=v" +:+ String Str.newline EmptyString)]>
              (files demo)) demo)
      = Done ((), st2)
    ∧ s_values st1 = s_values st2.
Proof.
  apply (load_ignores_final_newline map_to_list demo "/home/u" "k=v" true true).
  reflexivity.
Defined.

Lemma load_last_assignment_wins_witness :
  ∃ st', Config.load map_to_list assigned_twice = Done ((), st')
         ∧ Config.get "k" st' = Done ("last", st').
Proof.
  apply (load_last_assignment_wins map_to_list assigned_twice "/home/u"
           (File true true
              ("k=first" +:+ String Str.newline "j= spaced "
               +:+ String Str.newline "k=last"))
           [("k", "first"); ("j", " spaced ")] []).
  - reflexivity.
  - vm_compute. reflexivity.
  - reflexivity.
  - vm_compute. reflexivity.
  - simpl. apply not_elem_of_nil.
Defined.

Lemma load_introduces_only_storable_entries_witness :
  ∃ st', Config.load map_to_list on_disk = Done ((), st')
         ∧ ∀ k v, s_values st' !! k = Some v →
                  s_values on_disk !! k = Some v
                  ∨ ((Str.equals ∉ Str.chars k) ∧ (Str.newline ∉ Str.chars k)
                     ∧ (Str.newline ∉ Str.chars v)).
Proof.
  apply (load_introduces_only_storable_entries map_to_list on_disk "/home/u").
  reflexivity.
Defined.

Lemma round_trip_iff_storable_witness :
  ∃ st1 st2,
    Config.save map_to_list with_url = Done ((), st1)
    ∧ Config.load map_to_list (fresh st1) = Done ((), st2)
    ∧ (s_values st2 = s_values with_url ↔ storable (s_values with_url)).
Proof.
  apply (round_trip_iff_storable map_to_list with_url "/home/u").
  - exact map_to_list_enumerates.
  - reflexivity.
  - vm_compute. exact I.
Defined.

Lemma load_after_set_changes_nothing_witness :
  ∃ st1, Config.set map_to_list "url" "http://host/?a=1" demo = Done ((), st1)
         ∧ s_values st1 = <[ "url" := "http://host/?a=1" ]> (s_values demo)
         ∧ (Config.set map_to_list "url" "http://host/?a=1";;
            Config.load map_to_list) demo
           = Config.set map_to_list "url" "http://host/?a=1" demo.
Proof.
  apply (load_after_set_changes_nothing map_to_list demo "/home/u").
  - exact map_to_list_enumerates.
  - reflexivity.
  - vm_compute. exact I.
  - apply (bool_decide_unpack _). vm_compute. exact I.
Defined.

Lemma set_leaves_other_keys_witness :
  ∃ st' r, Config.set map_to_list "k" "new" stored = Done ((), st')
           ∧ Config.get "name" stored = Done (r, stored)
           ∧ Config.get "name" st' = Done (r, st').
Proof.
  apply (set_leaves_other_keys map_to_list stored "/home/u" "k" "new" "name").
  - reflexivity.
  - discriminate.
Defined.



Lemma load_settles_after_second_call_witness :
  ∃ st1 st2,
    Config.load map_to_list
      (mkProcess {[ "a=b" := "c" ]} EmptyString (Some "/home/u") ∅ ∅)
    = Done ((), st1)
    ∧ Config.load map_to_list st1 = Done ((), st2)
    ∧ Config.load map_to_list st2 = Done ((), st2).
Proof.
  apply (load_settles_after_second_call map_to_list _ "/home/u").
  reflexivity.
Defined.


Lemma category_paths_are_distinct_witness : Paths.Clogs = Paths.Clogs.
Proof.
  apply (category_paths_are_distinct demo Paths.Clogs Paths.Clogs "logs/");
    reflexivity.
Defined.

Lemma config_file_is_not_under_config_directory_witness :
  ∃ st' r d,
    Paths.init demo = Done ((), st')
    ∧ Paths.root st' = Done (r, st')
    ∧ Paths.config st' = Done (d, st')
    ∧ Config.getConfigFilePath st' = Done (r +:+ "config.ini", st')
    ∧ ∀ rest, d +:+ rest ≠ r +:+ "config.ini".
Proof.
  apply (config_file_is_not_under_config_directory demo "/home/u").
  reflexivity.
Defined.

Lemma calls_never_remove_a_key_witness :
  ∃ st', run map_to_list [CallSet "k" "other"; CallLoad; CallInit; CallSave]
           on_disk
         = Done ((), st')
         ∧ is_Some (s_values st' !! "x").
Proof.
  eexists. split.
  - vm_compute. reflexivity.
  - apply (calls_never_remove_a_key map_to_list
             [CallSet "k" "other"; CallLoad; CallInit; CallSave] on_disk).
    + vm_compute. reflexivity.
    + vm_compute. eexists. reflexivity.
Defined.
